(** * Doze Studio canvas animation controller

    A shallow embedding of [src/script.js] (class [DozeStudioAnimation]):
    frame preloading, the load-completion gate, the frame cursor and the
    aspect-fill ("cover") rendering of a frame on the canvas.

    Conventions of the embedding.
    - A JavaScript number used as a frame index or as the frame cursor is a
      rational [Q]: the code only compares it, floors it and uses it as an
      array index, and those operations are exact on finite doubles.
    - A JavaScript number used in the geometry of [renderImage] is an IEEE-754
      binary64 value ([PrimFloat.float]), since the code divides and
      multiplies there.
    - Pixel dimensions ([canvas.width], [img.width], [window.innerWidth]) are
      unsigned integers ([N]), as the DOM declares them.
    - The object's fields are a record [State]; every method is a function
      from [State] to [State].  Calls on collaborators (the 2D context, the
      console, GSAP) are recorded, oldest first, in the state.
    - Every call on a collaborator returns normally.  For [drawImage] this
      is what the HTML Standard prescribes here: its first step returns when
      an argument is infinite or NaN, and the geometry of [renderImage] is
      NaN whenever the image has no size (its load is pending or failed,
      see [unsized_image_geometry]); an image that has a size has loaded
      and can be drawn.
    - The object is the one built in a document that has the canvas and its
      2D context; without them [init] stops before [preloadImages] and no
      handler ever does anything. *)

From Stdlib Require Import ZArith NArith QArith Qround Floats Uint63.
From Stdlib Require Import String Ascii List FinFun Bool Lia Lqa.
From Stdlib Require Import DecimalString DecimalPos DecimalN.
Import ListNotations.

(** ** The JavaScript built-ins the controller calls *)

Module JS.

(** [Number.prototype.toString] on an integer: decimal digits, with a
    leading minus sign for a negative one. *)
Definition toString (n : Z) : string :=
  NilEmpty.string_of_int (Z.to_int n).

(** The filler of [padStart]: [fillString] repeated and truncated to
    [n] characters ([rest] is what remains of the current repetition). *)
Fixpoint filler (n : nat) (fillString rest : string) : string :=
  match n with
  | O => EmptyString
  | S n' =>
      match rest with
      | String c r => String c (filler n' fillString r)
      | EmptyString =>
          match fillString with
          | String c r => String c (filler n' fillString r)
          | EmptyString => EmptyString
          end
      end
  end.

(** [String.prototype.padStart(maxLength, fillString)]. *)
Definition padStart (s : string) (maxLength : nat) (fillString : string)
  : string :=
  let stringLength := String.length s in
  if (maxLength <=? stringLength)%nat then s
  else match fillString with
       | EmptyString => s
       | _ => filler (maxLength - stringLength) fillString fillString ++ s
       end.

(** A DOM unsigned long read as a JavaScript number (exact: it is below
    2^32). *)
Definition number (n : N) : float :=
  PrimFloat.of_uint63 (Uint63.of_Z (Z.of_N n)).

(** [Math.max] on two numbers: NaN if either is NaN, and +0 is larger
    than -0. *)
Definition Math_max (a b : float) : float :=
  if PrimFloat.is_nan a || PrimFloat.is_nan b then PrimFloat.nan
  else if PrimFloat.ltb a b then b
  else if PrimFloat.ltb b a then a
  else if PrimFloat.get_sign a then b else a.

(** [Math.floor] on a finite number. *)
Definition Math_floor (x : Q) : Q := inject_Z (Qfloor x).

(** [array[index]]: the element at an index that is a non-negative
    integer below the length, [undefined] ([None]) for any other index. *)
Definition get {A : Type} (array : list A) (index : Q) : option A :=
  let i := Qfloor index in
  if Qeq_bool index (inject_Z i) && (0 <=? i)%Z
  then nth_error array (Z.to_nat i)
  else None.

End JS.

(** ** Configuration constants *)

Record Config : Type := mkConfig {
  FRAME_PADDING : nat;
  FRAME_MAX_INDEX : Z
}.

(** The constants of the source ([CONFIG]); those that only parameterise
    GSAP tweens of DOM elements are left out. *)
Definition CONFIG : Config :=
  {| FRAME_PADDING := 4; FRAME_MAX_INDEX := 1345 |}.

(** [generateImageUrl(index)]. *)
Definition generateImageUrl (cfg : Config) (index : Z) : string :=
  let paddedIndex := JS.padStart (JS.toString index) (FRAME_PADDING cfg) "0" in
  ("./images/frame_" ++ paddedIndex ++ ".jpeg")%string.

(** The integers [first], [first+1], ..., [first+count-1]: the values a
    [for] loop counter takes. *)
Definition range (first : Z) (count : nat) : list Z :=
  map (fun k => (first + Z.of_nat k)%Z) (seq 0 count).

(** ** The naming convention, as the specification words it *)

(** The decimal digit [d] (0..9) as a character. *)
Definition digit_char (d : Z) : ascii :=
  ascii_of_nat (48 + Z.to_nat (d mod 10)).

(** [i] zero-padded to exactly four decimal digits. *)
Definition zero_padded4 (i : Z) : string :=
  String (digit_char (i / 1000))
    (String (digit_char (i / 100))
       (String (digit_char (i / 10))
          (String (digit_char i) EmptyString))).

(** [frame_<4-digit zero-padded index>.jpeg]. *)
Definition frame_file_name (i : Z) : string :=
  ("frame_" ++ zero_padded4 i ++ ".jpeg")%string.

(** ** The data model *)

(** The load outcome of an image element; a loaded image has a natural
    size. *)
Inductive LoadState : Type :=
| pending
| loaded (naturalWidth naturalHeight : N)
| failed.

(** An [Image] element created by [preloadImages]: its [src] and what the
    browser has made of the load so far. *)
Record Image : Type := mkImage {
  src : string;
  load : LoadState
}.

(** [img.width] and [img.height] of an element that is not in the document:
    the natural size once the image is available, 0 before that and after a
    failure. *)
Definition img_width (img : Image) : N :=
  match load img with loaded w _ => w | _ => 0%N end.

Definition img_height (img : Image) : N :=
  match load img with loaded _ h => h | _ => 0%N end.

(** What the object reads from its host: the viewport size and whether
    the two libraries are defined as globals. *)
Record Browser : Type := mkBrowser {
  innerWidth : N;
  innerHeight : N;
  LocomotiveScroll_defined : bool;
  gsap_defined : bool
}.

(** Calls on the 2D drawing context. *)
Inductive ContextCall : Type :=
| clearRect (x y w h : float)
| imageSmoothingEnabled (value : bool)
| imageSmoothingQuality (value : string)
| drawImage (img : Image) (dx dy dWidth dHeight : float).

(** Messages written to the console. *)
Inductive ConsoleEntry : Type :=
| warn_locomotive_not_available
| warn_failed_to_load_frame (index : Z)
| warn_image_not_available (index : Q)
| error_gsap_not_available.

(** [this.frames]. *)
Record Frames : Type := mkFrames {
  currentIndex : Q;
  maxIndex : Z
}.

(** A tween of [this.frames.currentIndex] registered on the timeline:
    its target and the label it is placed at. *)
Record FrameTween : Type := mkFrameTween {
  targetIndex : Z;
  label : string
}.

(** The fields of a [DozeStudioAnimation] whose canvas and context were
    found, together with its host and the calls it has made on its
    collaborators (oldest first). *)
Record State : Type := mkState {
  browser : Browser;
  canvas_width : N;
  canvas_height : N;
  context : list ContextCall;
  frames : Frames;
  images : list Image;
  imagesLoaded : Z;
  isInitialized : bool;
  console : list ConsoleEntry;
  timelines : list (list FrameTween)
}.

(** *** Field updates *)

Definition set_browser (b : Browser) (s : State) : State :=
  mkState b (canvas_width s) (canvas_height s) (context s) (frames s)
    (images s) (imagesLoaded s) (isInitialized s) (console s) (timelines s).

Definition set_canvas (w h : N) (s : State) : State :=
  mkState (browser s) w h (context s) (frames s)
    (images s) (imagesLoaded s) (isInitialized s) (console s) (timelines s).

Definition call_context (calls : list ContextCall) (s : State) : State :=
  mkState (browser s) (canvas_width s) (canvas_height s) (context s ++ calls)
    (frames s) (images s) (imagesLoaded s) (isInitialized s) (console s)
    (timelines s).

Definition set_currentIndex (index : Q) (s : State) : State :=
  mkState (browser s) (canvas_width s) (canvas_height s) (context s)
    (mkFrames index (maxIndex (frames s)))
    (images s) (imagesLoaded s) (isInitialized s) (console s) (timelines s).

Definition set_images (imgs : list Image) (s : State) : State :=
  mkState (browser s) (canvas_width s) (canvas_height s) (context s) (frames s)
    imgs (imagesLoaded s) (isInitialized s) (console s) (timelines s).

Definition set_imagesLoaded (n : Z) (s : State) : State :=
  mkState (browser s) (canvas_width s) (canvas_height s) (context s) (frames s)
    (images s) n (isInitialized s) (console s) (timelines s).

Definition set_isInitialized (b : bool) (s : State) : State :=
  mkState (browser s) (canvas_width s) (canvas_height s) (context s) (frames s)
    (images s) (imagesLoaded s) b (console s) (timelines s).

Definition console_log (e : ConsoleEntry) (s : State) : State :=
  mkState (browser s) (canvas_width s) (canvas_height s) (context s) (frames s)
    (images s) (imagesLoaded s) (isInitialized s) (console s ++ [e])
    (timelines s).

Definition gsap_timeline (tl : list FrameTween) (s : State) : State :=
  mkState (browser s) (canvas_width s) (canvas_height s) (context s) (frames s)
    (images s) (imagesLoaded s) (isInitialized s) (console s)
    (timelines s ++ [tl]).

(** ** The methods of [DozeStudioAnimation] *)

(** [isValidFrameIndex(index)]. *)
Definition isValidFrameIndex (index : Q) (this : State) : bool :=
  Qle_bool 0 index && Qle_bool index (inject_Z (maxIndex (frames this))).

(** [resizeCanvas()]. *)
Definition resizeCanvas (this : State) : State :=
  set_canvas (innerWidth (browser this)) (innerHeight (browser this)) this.

(** The local constants of [renderImage]. *)
Record RenderLocals : Type := mkRenderLocals {
  scaleX : float;
  scaleY : float;
  scale : float;
  newWidth : float;
  newHeight : float;
  offsetX : float;
  offsetY : float
}.

Definition renderImage_locals (canvasWidth canvasHeight : float) (img : Image)
  : RenderLocals :=
  let scaleX := (canvasWidth / JS.number (img_width img))%float in
  let scaleY := (canvasHeight / JS.number (img_height img))%float in
  let scale := JS.Math_max scaleX scaleY in
  let newWidth := (JS.number (img_width img) * scale)%float in
  let newHeight := (JS.number (img_height img) * scale)%float in
  let offsetX := ((canvasWidth - newWidth) / 2)%float in
  let offsetY := ((canvasHeight - newHeight) / 2)%float in
  mkRenderLocals scaleX scaleY scale newWidth newHeight offsetX offsetY.

(** [renderImage(img)]: the four calls on the context. *)
Definition renderImage (img : Image) (this : State) : State :=
  let canvasWidth := JS.number (canvas_width this) in
  let canvasHeight := JS.number (canvas_height this) in
  let g := renderImage_locals canvasWidth canvasHeight img in
  call_context
    [ clearRect 0 0 canvasWidth canvasHeight;
      imageSmoothingEnabled true;
      imageSmoothingQuality "high";
      drawImage img (offsetX g) (offsetY g) (newWidth g) (newHeight g) ]
    this.

(** [loadImage(index)]. *)
Definition loadImage (index : Q) (this : State) : State :=
  if negb (isValidFrameIndex index this) then this
  else
    match JS.get (images this) index with
    | None => console_log (warn_image_not_available index) this
    | Some img =>
        let this := resizeCanvas this in
        let this := renderImage img this in
        set_currentIndex index this
    end.

(** The [onUpdate] callback of the configuration [createFrameUpdate]
    returns. *)
Definition onUpdate (this : State) : State :=
  loadImage (JS.Math_floor (currentIndex (frames this))) this.

(** [createFrameUpdate(targetIndex)] placed at [label]: the tween of
    [currentIndex]; its callback is [onUpdate]. *)
Definition createFrameUpdate (targetIndex : Z) (label : string) : FrameTween :=
  mkFrameTween targetIndex label.

(** [buildAnimationTimeline(timeline)]: the tweens of [this.frames], in the
    order they are added (the tweens of DOM elements between them only
    reach GSAP). *)
Definition buildAnimationTimeline : list FrameTween :=
  [ createFrameUpdate 100 "first";
    createFrameUpdate 200 "second";
    createFrameUpdate 220 "third";
    createFrameUpdate 260 "fourth";
    createFrameUpdate 270 "fifth";
    createFrameUpdate 330 "sixth";
    createFrameUpdate 360 "seventh";
    createFrameUpdate 380 "eight";
    createFrameUpdate 400 "ninth";
    createFrameUpdate 430 "tenth";
    createFrameUpdate 460 "eleventh";
    createFrameUpdate 480 "twelveth";
    createFrameUpdate 500 "twelveth";
    createFrameUpdate 530 "13th";
    createFrameUpdate 550 "14th";
    createFrameUpdate 570 "15th" ].

(** [startAnimation()]. *)
Definition startAnimation (this : State) : State :=
  if negb (gsap_defined (browser this))
  then console_log error_gsap_not_available this
  else gsap_timeline buildAnimationTimeline this.

(** [onAllImagesLoaded()]. *)
Definition onAllImagesLoaded (this : State) : State :=
  let this := set_isInitialized true this in
  let this := loadImage (currentIndex (frames this)) this in
  startAnimation this.

(** [handleImageLoad()]. *)
Definition handleImageLoad (this : State) : State :=
  let this := set_imagesLoaded (imagesLoaded this + 1) this in
  if (imagesLoaded this =? maxIndex (frames this))%Z
  then onAllImagesLoaded this
  else this.

(** [handleImageLoadError(index, error)]. *)
Definition handleImageLoadError (index : Z) (this : State) : State :=
  let this := console_log (warn_failed_to_load_frame index) this in
  let this := set_imagesLoaded (imagesLoaded this + 1) this in
  if (imagesLoaded this =? maxIndex (frames this))%Z
  then onAllImagesLoaded this
  else this.

(** [preloadImages()]: one pending image per loop index, pushed in order. *)
Definition preloadImages (cfg : Config) (this : State) : State :=
  fold_left
    (fun this i =>
       let imageUrl := generateImageUrl cfg i in
       let img := mkImage imageUrl pending in
       set_images (images this ++ [img]) this)
    (range 1 (Z.to_nat (maxIndex (frames this))))
    this.

(** [initializeLocomotiveScroll()]. *)
Definition initializeLocomotiveScroll (this : State) : State :=
  if LocomotiveScroll_defined (browser this) then this
  else console_log warn_locomotive_not_available this.

(** [handleResize()]. *)
Definition handleResize (this : State) : State :=
  if isInitialized this
  then loadImage (JS.Math_floor (currentIndex (frames this))) this
  else this.

(** [loadFrame(index)]. *)
Definition loadFrame (index : Q) (this : State) : State :=
  if isInitialized this then loadImage index this else this.

(** [new DozeStudioAnimation()] in a document that has the canvas and its
    2D context: the constructor's assignments, then [init()], that is
    [initializeCanvas], [initializeLocomotiveScroll], [preloadImages] and
    [setupEventListeners] (which only registers [handleResize] and the
    heading tweens).  The canvas element starts at the default 300x150 and
    [initializeCanvas] resizes it at once. *)
Definition constructor (cfg : Config) (host : Browser) : State :=
  let this :=
    {| browser := host;
       canvas_width := 300; canvas_height := 150;
       context := [];
       frames := {| currentIndex := 0; maxIndex := FRAME_MAX_INDEX cfg |};
       images := [];
       imagesLoaded := 0;
       isInitialized := false;
       console := [];
       timelines := [] |} in
  let this := resizeCanvas this in
  let this := initializeLocomotiveScroll this in
  preloadImages cfg this.

(** ** The host's events *)

(** The browser records the outcome of the load of the image created at
    loop index [i] (the element at position [i-1] of [images]). *)
Fixpoint set_load (imgs : list Image) (position : nat) (outcome : LoadState)
  : list Image :=
  match imgs, position with
  | [], _ => []
  | img :: rest, O => mkImage (src img) outcome :: rest
  | img :: rest, S p => img :: set_load rest p outcome
  end.

Definition resolve (i : Z) (outcome : LoadState) (this : State) : State :=
  if (1 <=? i)%Z
  then set_images (set_load (images this) (Z.to_nat (i - 1)) outcome) this
  else this.

(** The browser gives the viewport a new size. *)
Definition viewport_changed (width height : N) (this : State) : State :=
  let b := browser this in
  set_browser
    (mkBrowser width height (LocomotiveScroll_defined b) (gsap_defined b))
    this.

(** What can happen to the object after construction. *)
Inductive Event : Type :=
| image_onload (i : Z) (naturalWidth naturalHeight : N)
| image_onerror (i : Z)
| window_resize (width height : N)
| tween_update (value : Q)
| call_loadFrame (index : Q)
| call_resizeCanvas.

(** The handler each event runs.
    - An image resolves: the browser records the outcome, then calls
      [onload] or [onerror] as [preloadImages] set them.
    - The viewport changes: the browser updates [window.innerWidth] and
      [window.innerHeight], then calls the ['resize'] listener.
    - GSAP scrubs a tween of a timeline [startAnimation] created: it writes
      the interpolated value into [frames.currentIndex], then calls
      [onUpdate]. *)
Definition dispatch (this : State) (e : Event) : State :=
  match e with
  | image_onload i w h => handleImageLoad (resolve i (loaded w h) this)
  | image_onerror i => handleImageLoadError i (resolve i failed this)
  | window_resize w h => handleResize (viewport_changed w h this)
  | tween_update value =>
      match timelines this with
      | [] => this
      | _ => onUpdate (set_currentIndex value this)
      end
  | call_loadFrame index => loadFrame index this
  | call_resizeCanvas => resizeCanvas this
  end.

Definition run (events : list Event) (this : State) : State :=
  fold_left dispatch events this.

(** ** Notions used in the statements *)

(** The number a string of decimal digits denotes ([None] when a
    character is not a digit). *)
Definition decimal_value (s : string) : option Z :=
  option_map (fun d => Z.of_N (N.of_uint d)) (NilEmpty.uint_of_string s).

(** The locator of [i] is the convention's file name under [./images/],
    and the four padded characters are digits that denote [i]. *)
Definition follows_convention (i : Z) : bool :=
  String.eqb (generateImageUrl CONFIG i) ("./images/" ++ frame_file_name i)
  && (String.length (zero_padded4 i) =? 4)%nat
  && match decimal_value (zero_padded4 i) with
     | Some v => (v =? i)%Z
     | None => false
     end.

Inductive loadImage_path (index : Q) (this : State) : State -> Prop :=
| path_invalid_index :
    isValidFrameIndex index this = false ->
    loadImage_path index this this
| path_no_image :
    isValidFrameIndex index this = true ->
    JS.get (images this) index = None ->
    loadImage_path index this
      (console_log (warn_image_not_available index) this)
| path_render (img : Image) :
    isValidFrameIndex index this = true ->
    JS.get (images this) index = Some img ->
    loadImage_path index this
      (set_currentIndex index (renderImage img (resizeCanvas this))).

(** The calls one render of [img] makes on a surface of [W] x [H] pixels. *)
Definition render_calls (W H : N) (img : Image) : list ContextCall :=
  let g := renderImage_locals (JS.number W) (JS.number H) img in
  [ clearRect 0 0 (JS.number W) (JS.number H);
    imageSmoothingEnabled true;
    imageSmoothingQuality "high";
    drawImage img (offsetX g) (offsetY g) (newWidth g) (newHeight g) ].

(** The events that are slot-resolution callbacks. *)
Definition is_resolution (e : Event) : bool :=
  match e with
  | image_onload _ _ _ | image_onerror _ => true
  | _ => false
  end.

(** How many slot-resolution callbacks a run contains. *)
Definition resolutions (events : list Event) : Z :=
  Z.of_nat (length (filter is_resolution events)).

Definition is_gsap_error (e : ConsoleEntry) : bool :=
  match e with
  | error_gsap_not_available => true
  | _ => false
  end.

(** How many times [onAllImagesLoaded] has run, read off what its last
    statement [startAnimation()] leaves behind: a timeline, or the error
    message when GSAP is missing. *)
Definition notifications (this : State) : nat :=
  length (timelines this) + length (filter is_gsap_error (console this)).

(** The bookkeeping of an object built with [cfg] after [resolved]
    slot-resolution callbacks. *)
Record consistent (cfg : Config) (resolved : Z) (this : State) : Prop :=
  mkConsistent {
    inv_maxIndex : maxIndex (frames this) = FRAME_MAX_INDEX cfg;
    inv_imagesLoaded : imagesLoaded this = resolved;
    inv_nonneg : (0 <= resolved)%Z;
    inv_isInitialized :
      isInitialized this
      = ((1 <=? FRAME_MAX_INDEX cfg)%Z && (FRAME_MAX_INDEX cfg <=? resolved)%Z);
    inv_notifications :
      notifications this = if isInitialized this then 1%nat else 0%nat;
    inv_sources :
      map src (images this)
      = map (generateImageUrl cfg) (range 1 (Z.to_nat (FRAME_MAX_INDEX cfg)));
    inv_idle :
      isInitialized this = false ->
      currentIndex (frames this) = 0
      /\ context this = []
      /\ timelines this = []
  }.

(** The example of the specification: 1000 loads and 345 errors. *)
Definition thousand_loads_then_errors : list Event :=
  map (fun i => if (i <=? 1000)%Z then image_onload i 400 300
                else image_onerror i)
      (range 1 (Z.to_nat 1345)).

(** [0 <= currentIndex <= maxIndex]. *)
Definition cursor_in_range (this : State) : Prop :=
  0 <= currentIndex (frames this)
  /\ currentIndex (frames this) <= inject_Z (maxIndex (frames this)).

(** The value GSAP writes into the cursor lies in the range of frames. *)
Definition tween_in_range (N : Z) (e : Event) : Prop :=
  match e with
  | tween_update value => 0 <= value /\ value <= inject_Z N
  | _ => True
  end.






(** * Properties *)

(** ** Loop counters *)

Lemma in_range (first : Z) (count : nat) (i : Z) :
  In i (range first count) <-> (first <= i < first + Z.of_nat count)%Z.
Proof.
  unfold range. rewrite in_map_iff. split.
  - intros [k [Hk Hin]]. apply in_seq in Hin. lia.
  - intros Hi. exists (Z.to_nat (i - first)). split; [lia|].
    apply in_seq. lia.
Qed.


Lemma range_length (first : Z) (count : nat) :
  length (range first count) = count.
Proof. unfold range. now rewrite length_map, length_seq. Qed.

(** ** Resource locators *)

Lemma four_digit_indices_follow_convention :
  forallb follows_convention (range 0 (Z.to_nat 10000)) = true.
Proof. vm_compute. reflexivity. Qed.

(** C7. For every i from 1 to N = 1345 the locator [generateImageUrl]
    builds is [./images/frame_<d>.jpeg] where [d] is i zero-padded to
    exactly four decimal digits (four characters, all digits, denoting i);
    i = 7 gives frame_0007.jpeg and i = 1345 gives frame_1345.jpeg. *)
Theorem generateImageUrl_zero_padded (i : Z) :
  (1 <= i <= FRAME_MAX_INDEX CONFIG)%Z ->
  generateImageUrl CONFIG i
  = ("./images/" ++ "frame_" ++ zero_padded4 i ++ ".jpeg")%string
  /\ String.length (zero_padded4 i) = 4%nat
  /\ decimal_value (zero_padded4 i) = Some i
  /\ generateImageUrl CONFIG 7 = "./images/frame_0007.jpeg"%string
  /\ generateImageUrl CONFIG 1345 = "./images/frame_1345.jpeg"%string.
Proof.
  intros Hi. simpl in Hi.
  pose proof four_digit_indices_follow_convention as Hall.
  rewrite forallb_forall in Hall.
  assert (Hin : In i (range 0 (Z.to_nat 10000))) by (apply in_range; lia).
  specialize (Hall i Hin). unfold follows_convention in Hall.
  apply andb_true_iff in Hall. destruct Hall as [Hall Hval].
  apply andb_true_iff in Hall. destruct Hall as [Hurl Hlen].
  apply String.eqb_eq in Hurl. apply Nat.eqb_eq in Hlen.
  split; [exact Hurl|]. split; [exact Hlen|]. split.
  - destruct (decimal_value (zero_padded4 i)) as [v|]; [|discriminate].
    apply Z.eqb_eq in Hval. now subst v.
  - split; reflexivity.
Qed.

Lemma generateImageUrl_zero_padded_witness :
  (1 <= 7 <= FRAME_MAX_INDEX CONFIG)%Z
  /\ generateImageUrl CONFIG 7
     = ("./images/" ++ "frame_" ++ zero_padded4 7 ++ ".jpeg")%string.
Proof.
  split.
  - simpl. lia.
  - refine (proj1 (generateImageUrl_zero_padded 7 _)). simpl. lia.
Defined.

(** ** The paths through [loadImage] *)

Lemma isValidFrameIndex_iff (index : Q) (this : State) :
  isValidFrameIndex index this = true
  <-> 0 <= index /\ index <= inject_Z (maxIndex (frames this)).
Proof.
  unfold isValidFrameIndex. rewrite andb_true_iff, !Qle_bool_iff. tauto.
Qed.

Lemma loadImage_spec (index : Q) (this : State) :
  loadImage_path index this (loadImage index this).
Proof.
  unfold loadImage.
  destruct (isValidFrameIndex index this) eqn:Hvalid; simpl.
  - destruct (JS.get (images this) index) as [img|] eqn:Hget.
    + now apply path_render.
    + now apply path_no_image.
  - now apply path_invalid_index.
Qed.

Lemma loadImage_invalid (index : Q) (this : State) :
  isValidFrameIndex index this = false -> loadImage index this = this.
Proof. intros H. unfold loadImage. now rewrite H. Qed.

Lemma loadImage_no_image (index : Q) (this : State) :
  isValidFrameIndex index this = true ->
  JS.get (images this) index = None ->
  loadImage index this = console_log (warn_image_not_available index) this.
Proof. intros Hv Hg. unfold loadImage. now rewrite Hv, Hg. Qed.

Lemma loadImage_render (index : Q) (this : State) (img : Image) :
  isValidFrameIndex index this = true ->
  JS.get (images this) index = Some img ->
  loadImage index this
  = set_currentIndex index (renderImage img (resizeCanvas this)).
Proof. intros Hv Hg. unfold loadImage. now rewrite Hv, Hg. Qed.

Lemma renderImage_context (img : Image) (this : State) :
  context (renderImage img this)
  = context this ++ render_calls (canvas_width this) (canvas_height this) img.
Proof. reflexivity. Qed.

(** A render reads the viewport: the surface takes its size and the
    geometry is computed from it. *)
Lemma rendered_state (index : Q) (img : Image) (this : State) :
  let after := set_currentIndex index (renderImage img (resizeCanvas this)) in
  context after
  = context this
    ++ render_calls (innerWidth (browser this)) (innerHeight (browser this)) img
  /\ canvas_width after = innerWidth (browser this)
  /\ canvas_height after = innerHeight (browser this)
  /\ currentIndex (frames after) = index.
Proof. repeat split. Qed.

(** ** Out-of-range indices *)

Lemma above_maxIndex_invalid (this : State) (index : Q) :
  inject_Z (maxIndex (frames this)) < index ->
  isValidFrameIndex index this = false.
Proof.
  intros Hlt. apply not_true_is_false. rewrite isValidFrameIndex_iff.
  intros [_ Hle]. apply (Qlt_irrefl index).
  eapply Qle_lt_trans; eassumption.
Qed.

Lemma negative_invalid (this : State) (index : Q) :
  index < 0 -> isValidFrameIndex index this = false.
Proof.
  intros Hlt. apply not_true_is_false. rewrite isValidFrameIndex_iff.
  intros [Hle _]. apply (Qlt_irrefl index).
  eapply Qlt_le_trans; eassumption.
Qed.

(** C4. In every state, [loadImage] (and the public [loadFrame]) called
    with index -1 or with index maxIndex + 1 returns the state it was given:
    canvas, context calls and [currentIndex] are as before, and no call at
    all is made on a collaborator, so nothing can be raised. *)
Theorem loadImage_out_of_range_noop (this : State) :
  let N := maxIndex (frames this) in
  loadImage (inject_Z (-1)) this = this
  /\ loadImage (inject_Z (N + 1)) this = this
  /\ loadFrame (inject_Z (-1)) this = this
  /\ loadFrame (inject_Z (N + 1)) this = this.
Proof.
  intros N.
  assert (Hneg : loadImage (inject_Z (-1)) this = this).
  { apply loadImage_invalid, negative_invalid. reflexivity. }
  assert (Hbig : loadImage (inject_Z (N + 1)) this = this).
  { apply loadImage_invalid, above_maxIndex_invalid.
    rewrite <- Zlt_Qlt. subst N. lia. }
  unfold loadFrame. rewrite Hneg, Hbig.
  destruct (isInitialized this); auto.
Qed.

(** ** Cover geometry *)

(** C3. On a surface of W x H pixels, for an image of natural size w x h
    with w, h > 0, [renderImage] computes scale = max(W/w, H/h), the drawn
    size (w*scale, h*scale) and the offsets ((W - w*scale)/2,
    (H - h*scale)/2), clears the surface and draws the image there.
    A 1000x500 surface with a 400x400 image gives scale 2.5, drawn size
    1000x1000 and offsets (0, -250); an 800x600 surface with a 400x300
    image gives scale 2, drawn size 800x600 and offsets (0, 0). *)
Theorem renderImage_cover_geometry
  (W H w h : N) (this : State) (img : Image) :
  (0 < w)%N -> (0 < h)%N ->
  canvas_width this = W -> canvas_height this = H ->
  load img = loaded w h ->
  let g := renderImage_locals (JS.number W) (JS.number H) img in
  scale g
  = JS.Math_max (JS.number W / JS.number w) (JS.number H / JS.number h)
  /\ newWidth g = (JS.number w * scale g)%float
  /\ newHeight g = (JS.number h * scale g)%float
  /\ offsetX g = ((JS.number W - newWidth g) / 2)%float
  /\ offsetY g = ((JS.number H - newHeight g) / 2)%float
  /\ context (renderImage img this)
     = context this
       ++ [ clearRect 0 0 (JS.number W) (JS.number H);
            imageSmoothingEnabled true;
            imageSmoothingQuality "high";
            drawImage img (offsetX g) (offsetY g) (newWidth g) (newHeight g) ]
  /\ renderImage_locals (JS.number 1000) (JS.number 500)
       (mkImage (src img) (loaded 400 400))
     = mkRenderLocals 2.5 1.25 2.5 1000 1000 0 (-250)
  /\ renderImage_locals (JS.number 800) (JS.number 600)
       (mkImage (src img) (loaded 400 300))
     = mkRenderLocals 2 2 2 800 600 0 0.
Proof.
  intros _ _ HW HH Hload g. subst g.
  rewrite renderImage_context, HW, HH.
  unfold render_calls, renderImage_locals, img_width, img_height.
  rewrite Hload.
  cbn [scale newWidth newHeight offsetX offsetY load].
  repeat (split; [reflexivity|]).
  split; vm_compute; reflexivity.
Qed.

Lemma renderImage_cover_geometry_witness :
  let this :=
    resizeCanvas
      (constructor (mkConfig 4 0) (mkBrowser 1000 500 true true)) in
  let img := mkImage "./images/frame_0001.jpeg" (loaded 400 400) in
  let g := renderImage_locals (JS.number 1000) (JS.number 500) img in
  scale g = 2.5%float
  /\ newWidth g = 1000%float /\ newHeight g = 1000%float
  /\ offsetX g = 0%float /\ offsetY g = (-250)%float
  /\ context (renderImage img this)
     = [ clearRect 0 0 1000 500;
         imageSmoothingEnabled true;
         imageSmoothingQuality "high";
         drawImage img 0 (-250) 1000 1000 ].
Proof.
  intros this img g.
  destruct
    (renderImage_cover_geometry 1000 500 400 400 this img
       eq_refl eq_refl eq_refl eq_refl eq_refl)
    as (Hscale & Hwidth & Hheight & Hx & Hy & Hcontext & _).
  split; [exact Hscale|]. split; [exact Hwidth|]. split; [exact Hheight|].
  split; [exact Hx|]. split; [exact Hy|]. exact Hcontext.
Defined.

(** *** An image without a size *)

(** Division by zero never yields a finite number. *)
Lemma div_by_zero (x : float) :
  (x / 0 = nan \/ x / 0 = infinity \/ x / 0 = neg_infinity)%float.
Proof.
  rewrite <- (SF2Prim_Prim2SF (x / 0)), FloatAxioms.div_spec.
  change (Prim2SF 0) with (S754_zero false).
  destruct (Prim2SF x) as [s|s| |s m e]; simpl.
  - now left.
  - destruct s; [right; right|right; left]; reflexivity.
  - now left.
  - destruct s; [right; right|right; left]; reflexivity.
Qed.

Lemma sub_nan (x : float) : (x - nan = nan)%float.
Proof.
  rewrite <- (SF2Prim_Prim2SF (x - nan)), FloatAxioms.sub_spec.
  change (Prim2SF nan) with S754_nan.
  destruct (Prim2SF x) as [s|s| |s m e]; reflexivity.
Qed.

Lemma zero_times_unbounded_scale (x y : float) :
  (0 * JS.Math_max (x / 0) (y / 0) = nan)%float.
Proof.
  destruct (div_by_zero x) as [Hx|[Hx|Hx]],
    (div_by_zero y) as [Hy|[Hy|Hy]]; rewrite Hx, Hy; reflexivity.
Qed.

(** An image whose load is pending or has failed has width and height 0:
    whatever the size of the surface, [renderImage] asks for it to be drawn
    at NaN offsets with a NaN size. *)
Lemma unsized_image_geometry (W H : N) (img : Image) :
  load img = pending \/ load img = failed ->
  render_calls W H img
  = [ clearRect 0 0 (JS.number W) (JS.number H);
      imageSmoothingEnabled true;
      imageSmoothingQuality "high";
      drawImage img nan nan nan nan ].
Proof.
  intros Hload. unfold render_calls, renderImage_locals, img_width, img_height.
  cbn [scale newWidth newHeight offsetX offsetY].
  assert (Hzero : match load img with loaded w _ => w | _ => 0%N end = 0%N
                  /\ match load img with loaded _ h => h | _ => 0%N end = 0%N).
  { destruct Hload as [Hl|Hl]; rewrite Hl; now split. }
  destruct Hzero as [Hw Hh]. rewrite Hw, Hh.
  change (JS.number 0) with 0%float.
  rewrite zero_times_unbounded_scale, !sub_nan.
  reflexivity.
Qed.

(** ** Geometry and the viewport *)

Lemma loadImage_after_resize (index : Q) (W H : N) (this : State) :
  loadImage index (resizeCanvas (viewport_changed W H (resizeCanvas this)))
  = loadImage index (resizeCanvas (viewport_changed W H this)).
Proof. reflexivity. Qed.



(** ** What a run of events maintains *)

Lemma loadImage_preserves (index : Q) (this : State) :
  let after := loadImage index this in
  browser after = browser this
  /\ images after = images this
  /\ imagesLoaded after = imagesLoaded this
  /\ isInitialized after = isInitialized this
  /\ timelines after = timelines this
  /\ maxIndex (frames after) = maxIndex (frames this)
  /\ notifications after = notifications this.
Proof.
  destruct (loadImage_spec index this); repeat split.
  unfold notifications. simpl. rewrite filter_app. simpl.
  now rewrite app_nil_r.
Qed.

Lemma loadImage_consistent (cfg : Config) (k : Z) (index : Q) (this : State) :
  consistent cfg k this ->
  isInitialized this = true ->
  consistent cfg k (loadImage index this).
Proof.
  intros [Hmax Hk Hpos Hinit Hnote Hsrc Hidle] Hon.
  destruct (loadImage_preserves index this)
    as (_ & Himg & Hcount & Hflag & _ & Hmax' & Hnote').
  constructor; rewrite ?Hmax', ?Himg, ?Hcount, ?Hflag, ?Hnote'; try assumption.
  rewrite Hon. discriminate.
Qed.

Lemma preloadImages_images (cfg : Config) (this : State) :
  preloadImages cfg this
  = set_images
      (images this
       ++ map (fun i => mkImage (generateImageUrl cfg i) pending)
            (range 1 (Z.to_nat (maxIndex (frames this)))))
      this.
Proof.
  unfold preloadImages.
  generalize (range 1 (Z.to_nat (maxIndex (frames this)))) as l.
  intros l. revert this.
  induction l as [|i l IH]; intros this; simpl.
  - rewrite app_nil_r. now destruct this.
  - rewrite IH. simpl. now rewrite <- app_assoc.
Qed.

Lemma constructor_consistent (cfg : Config) (host : Browser) :
  consistent cfg 0 (constructor cfg host).
Proof.
  unfold constructor. rewrite preloadImages_images.
  assert (Hflag : false
                  = ((1 <=? FRAME_MAX_INDEX cfg)%Z
                     && (FRAME_MAX_INDEX cfg <=? 0)%Z)).
  { destruct (1 <=? FRAME_MAX_INDEX cfg)%Z eqn:H1; simpl; [|reflexivity].
    symmetry. apply Z.leb_gt. apply Z.leb_le in H1. lia. }
  unfold initializeLocomotiveScroll.
  destruct (LocomotiveScroll_defined host) eqn:Hloco; simpl; rewrite ?Hloco;
    constructor; simpl; try reflexivity; try lia; try exact Hflag;
    try (rewrite map_map; reflexivity); intros _; repeat split.
Qed.

Lemma set_load_sources (imgs : list Image) (position : nat) (o : LoadState) :
  map src (set_load imgs position o) = map src imgs.
Proof.
  revert position.
  induction imgs as [|img rest IH]; intros [|p]; simpl; try reflexivity.
  now rewrite IH.
Qed.

Lemma resolve_consistent (cfg : Config) (k i : Z) (o : LoadState)
  (this : State) :
  consistent cfg k this -> consistent cfg k (resolve i o this).
Proof.
  intros [Hmax Hk Hpos Hinit Hnote Hsrc Hidle].
  unfold resolve. destruct (1 <=? i)%Z; [|now constructor].
  constructor; simpl; try assumption.
  now rewrite set_load_sources.
Qed.

Lemma console_warning_consistent (cfg : Config) (k : Z) (e : ConsoleEntry)
  (this : State) :
  is_gsap_error e = false ->
  consistent cfg k this -> consistent cfg k (console_log e this).
Proof.
  intros He [Hmax Hk Hpos Hinit Hnote Hsrc Hidle].
  constructor; simpl; try assumption.
  unfold notifications in *. simpl. rewrite filter_app. simpl. rewrite He.
  now rewrite app_nil_r.
Qed.

Lemma startAnimation_effect (this : State) :
  let after := startAnimation this in
  notifications after = S (notifications this)
  /\ frames after = frames this
  /\ images after = images this
  /\ imagesLoaded after = imagesLoaded this
  /\ isInitialized after = isInitialized this
  /\ context after = context this
  /\ browser after = browser this.
Proof.
  unfold startAnimation, notifications.
  destruct (gsap_defined (browser this)); simpl; repeat split.
  - rewrite length_app. simpl. lia.
  - rewrite filter_app, length_app. simpl. lia.
Qed.

(** *** What the handlers leave alone *)

Lemma handleImageLoadError_as_load (index : Z) (this : State) :
  handleImageLoadError index this
  = handleImageLoad (console_log (warn_failed_to_load_frame index) this).
Proof. reflexivity. Qed.

Lemma loadImage_images (index : Q) (this : State) :
  images (loadImage index this) = images this.
Proof. now destruct (loadImage_preserves index this) as (_ & H & _). Qed.

Lemma loadImage_maxIndex (index : Q) (this : State) :
  maxIndex (frames (loadImage index this)) = maxIndex (frames this).
Proof.
  now destruct (loadImage_preserves index this) as (_ & _ & _ & _ & _ & H & _).
Qed.

Lemma startAnimation_images (this : State) :
  images (startAnimation this) = images this.
Proof. now destruct (startAnimation_effect this) as (_ & _ & H & _). Qed.

Lemma startAnimation_frames (this : State) :
  frames (startAnimation this) = frames this.
Proof. now destruct (startAnimation_effect this) as (_ & H & _). Qed.

Lemma handleImageLoad_images (this : State) :
  images (handleImageLoad this) = images this.
Proof.
  unfold handleImageLoad, onAllImagesLoaded.
  match goal with |- context [if ?c then _ else _] => destruct c end;
    [|reflexivity].
  now rewrite startAnimation_images, loadImage_images.
Qed.

Lemma handleImageLoad_maxIndex (this : State) :
  maxIndex (frames (handleImageLoad this)) = maxIndex (frames this).
Proof.
  unfold handleImageLoad, onAllImagesLoaded.
  match goal with |- context [if ?c then _ else _] => destruct c end;
    [|reflexivity].
  now rewrite startAnimation_frames, loadImage_maxIndex.
Qed.

Create Rewrite HintDb untouched.

#[local] Hint Rewrite
  handleImageLoadError_as_load
  loadImage_images loadImage_maxIndex
  startAnimation_images startAnimation_frames
  handleImageLoad_images handleImageLoad_maxIndex : untouched.

(** Case analysis on the gates of the handlers. *)
Ltac case_gates :=
  repeat match goal with
    | |- context [if isInitialized ?s then _ else _] =>
        destruct (isInitialized s)
    | |- context [match timelines ?s with _ => _ end] =>
        destruct (timelines s)
    | |- context [if (1 <=? ?i)%Z then _ else _] =>
        destruct (1 <=? i)%Z
    end.

(** The N-th callback is the one whose increment makes the counter equal
    to [maxIndex]. *)
Lemma threshold_step (N k : Z) :
  (0 <= k)%Z ->
  ((1 <=? N)%Z && (N <=? k + 1)%Z)
  = ((k + 1 =? N)%Z || ((1 <=? N)%Z && (N <=? k)%Z)).
Proof.
  intros Hk.
  destruct (1 <=? N)%Z eqn:H1, (N <=? k + 1)%Z eqn:H2, (k + 1 =? N)%Z eqn:H3,
    (N <=? k)%Z eqn:H4; simpl; try reflexivity;
    rewrite ?Z.leb_le, ?Z.leb_gt, ?Z.eqb_eq, ?Z.eqb_neq in *; lia.
Qed.

Lemma handleImageLoad_consistent (cfg : Config) (k : Z) (this : State) :
  consistent cfg k this -> consistent cfg (k + 1) (handleImageLoad this).
Proof.
  intros [Hmax Hk Hpos Hinit Hnote Hsrc Hidle].
  unfold handleImageLoad. simpl. rewrite Hk, Hmax.
  pose proof (threshold_step (FRAME_MAX_INDEX cfg) k Hpos) as Hstep.
  destruct (k + 1 =? FRAME_MAX_INDEX cfg)%Z eqn:Hnth.
  - (* the callback that completes the count *)
    apply Z.eqb_eq in Hnth.
    assert (Hoff : isInitialized this = false).
    { rewrite Hinit. apply andb_false_iff. right. apply Z.leb_gt. lia. }
    rewrite Hoff in Hnote.
    unfold onAllImagesLoaded.
    set (ready := set_isInitialized true
                    (set_imagesLoaded (k + 1) this)).
    destruct (loadImage_preserves (currentIndex (frames ready)) ready)
      as (_ & Himg & Hcount & Hflag & _ & Hmax' & Hnote').
    destruct (startAnimation_effect
                (loadImage (currentIndex (frames ready)) ready))
      as (Hn & Hfr & Him & Hc & Hf & _ & _).
    constructor.
    + rewrite Hfr, Hmax'. exact Hmax.
    + rewrite Hc, Hcount. reflexivity.
    + lia.
    + rewrite Hf, Hflag, Hstep. reflexivity.
    + rewrite Hn, Hf, Hflag, Hnote'. simpl.
      change (notifications ready) with (notifications this).
      now rewrite Hnote.
    + rewrite Him, Himg. exact Hsrc.
    + rewrite Hf, Hflag. discriminate.
  - constructor; simpl; try assumption; try lia.
    rewrite Hstep. exact Hinit.
Qed.

Lemma dispatch_consistent (cfg : Config) (k : Z) (this : State) (e : Event) :
  consistent cfg k this ->
  consistent cfg (k + (if is_resolution e then 1 else 0)) (dispatch this e).
Proof.
  intros Hinv. destruct e as [i w h|i|w h|value|index|]; simpl;
    rewrite ?Z.add_0_r.
  - now apply handleImageLoad_consistent, resolve_consistent.
  - rewrite handleImageLoadError_as_load.
    apply handleImageLoad_consistent, console_warning_consistent;
      [reflexivity|]. now apply resolve_consistent.
  - assert (Hview : consistent cfg k (viewport_changed w h this)).
    { destruct Hinv. now constructor. }
    unfold handleResize.
    destruct (isInitialized (viewport_changed w h this)) eqn:Hon;
      [|exact Hview].
    now apply loadImage_consistent.
  - destruct (timelines this) as [|tl tls] eqn:Htl; [exact Hinv|].
    assert (Hon : isInitialized this = true).
    { destruct (isInitialized this) eqn:Hflag; [reflexivity|].
      destruct Hinv as [_ _ _ _ _ _ Hidle].
      destruct (Hidle Hflag) as (_ & _ & Hnone). congruence. }
    unfold onUpdate. apply loadImage_consistent; [|exact Hon].
    destruct Hinv as [Hmax Hk Hpos Hinit Hnote Hsrc Hidle].
    constructor; simpl; try assumption. rewrite Hon. discriminate.
  - unfold loadFrame. destruct (isInitialized this) eqn:Hon; [|exact Hinv].
    now apply loadImage_consistent.
  - destruct Hinv. now constructor.
Qed.

Lemma run_app (events1 events2 : list Event) (this : State) :
  run (events1 ++ events2) this = run events2 (run events1 this).
Proof. apply fold_left_app. Qed.

Lemma resolutions_app (events1 events2 : list Event) :
  resolutions (events1 ++ events2)
  = (resolutions events1 + resolutions events2)%Z.
Proof. unfold resolutions. rewrite filter_app, length_app. lia. Qed.

Lemma run_consistent_from (cfg : Config) (events : list Event) :
  forall (k : Z) (this : State),
    consistent cfg k this ->
    consistent cfg (k + resolutions events) (run events this).
Proof.
  induction events as [|e events IH]; intros k this Hinv.
  - unfold resolutions. simpl. now rewrite Z.add_0_r.
  - change (e :: events) with ([e] ++ events).
    rewrite resolutions_app, Z.add_assoc. simpl. apply IH.
    replace (resolutions [e]) with (if is_resolution e then 1 else 0)%Z
      by (unfold resolutions; simpl; now destruct (is_resolution e)).
    now apply dispatch_consistent.
Qed.

Lemma run_consistent (cfg : Config) (host : Browser) (events : list Event) :
  consistent cfg (resolutions events) (run events (constructor cfg host)).
Proof.
  apply (run_consistent_from cfg events 0), constructor_consistent.
Qed.

(** ** The completion gate *)

Lemma notification_count (cfg : Config) (host : Browser)
  (events : list Event) :
  let N := FRAME_MAX_INDEX cfg in
  let this := run events (constructor cfg host) in
  imagesLoaded this = resolutions events
  /\ isInitialized this = ((1 <=? N)%Z && (N <=? resolutions events)%Z)
  /\ notifications this
     = if ((1 <=? N)%Z && (N <=? resolutions events)%Z) then 1%nat else 0%nat.
Proof.
  intros N this.
  destruct (run_consistent cfg host events)
    as [_ Hk _ Hinit Hnote _ _].
  fold this in Hk, Hinit, Hnote. subst N.
  split; [exact Hk|]. split; [exact Hinit|].
  now rewrite Hnote, Hinit.
Qed.

Lemma resolutions_nonneg (events : list Event) : (0 <= resolutions events)%Z.
Proof. unfold resolutions. lia. Qed.

Lemma resolutions_snoc (events : list Event) (e : Event) :
  resolutions (events ++ [e])
  = (resolutions events + if is_resolution e then 1 else 0)%Z.
Proof.
  rewrite resolutions_app. unfold resolutions at 2. simpl.
  now destruct (is_resolution e).
Qed.

(** C2. With N = maxIndex = 1345, along every sequence of events after
    construction (loads and errors in any mix and order, interleaved with
    anything else): the resolved count [imagesLoaded] is the number of
    load and error callbacks so far, each of them adding exactly 1 and no
    other event adding anything; and [onAllImagesLoaded] has run once if
    1345 callbacks have occurred and not at all before that, the run
    happening in the 1345th callback and in no other event. *)
Theorem all_resolved_fires_once
  (host : Browser) (events : list Event) (e : Event) :
  let before := run events (constructor CONFIG host) in
  let after := dispatch before e in
  imagesLoaded before = resolutions events
  /\ imagesLoaded after
     = (imagesLoaded before + if is_resolution e then 1 else 0)%Z
  /\ notifications before
     = (if (1345 <=? resolutions events)%Z then 1%nat else 0%nat)
  /\ notifications after
     = (notifications before
        + if is_resolution e && (resolutions events + 1 =? 1345)%Z
          then 1 else 0)%nat
  /\ isInitialized before = (1345 <=? resolutions events)%Z.
Proof.
  intros before after.
  destruct (notification_count CONFIG host events) as (Hk & Hinit & Hnote).
  destruct (notification_count CONFIG host (events ++ [e]))
    as (Hk' & _ & Hnote').
  rewrite run_app in Hk', Hnote'. simpl in Hk', Hnote', Hinit, Hnote.
  fold before in Hk, Hinit, Hnote, Hk', Hnote'. fold after in Hk', Hnote'.
  rewrite resolutions_snoc in Hk', Hnote'.
  pose proof (resolutions_nonneg events) as Hpos.
  split; [exact Hk|]. split; [now rewrite Hk', Hk|].
  split; [exact Hnote|]. split; [|exact Hinit].
  rewrite Hnote', Hnote.
  destruct (is_resolution e); simpl.
  - destruct (1345 <=? resolutions events + 1)%Z eqn:H1,
      (1345 <=? resolutions events)%Z eqn:H2,
      (resolutions events + 1 =? 1345)%Z eqn:H3; try reflexivity;
      rewrite ?Z.leb_le, ?Z.leb_gt, ?Z.eqb_eq, ?Z.eqb_neq in *; lia.
  - rewrite Z.add_0_r. destruct (1345 <=? resolutions events)%Z; reflexivity.
Qed.

Example fires_at_the_1345th_resolution :
  let host := mkBrowser 800 600 true true in
  let start := constructor CONFIG host in
  notifications (run (firstn 1344 thousand_loads_then_errors) start) = 0%nat
  /\ notifications (run thousand_loads_then_errors start) = 1%nat
  /\ imagesLoaded (run thousand_loads_then_errors start) = 1345%Z.
Proof. vm_compute. repeat split. Qed.

(** ** Resizing *)

Lemma notified_iff_initialized (cfg : Config) (host : Browser)
  (events : list Event) :
  let this := run events (constructor cfg host) in
  (notifications this = 0%nat <-> isInitialized this = false)
  /\ (notifications this = 1%nat <-> isInitialized this = true).
Proof.
  intros this.
  destruct (run_consistent cfg host events) as [_ _ _ _ Hnote _ _].
  fold this in Hnote. rewrite Hnote.
  destruct (isInitialized this); split; split; intros H;
    try reflexivity; discriminate.
Qed.

(** C9. After any sequence of events: when the window is resized while
    the all-resolved notification has not fired, [handleResize] makes no
    call on the context, leaves canvas, cursor and every other field as
    they were and cannot raise (it does nothing at all); once the
    notification has fired, [handleResize] is a [loadImage] of the floor of
    [currentIndex], which gives the canvas the new viewport size and, the
    frame being there, repaints it with the geometry of that size and
    leaves the cursor on the floored index. *)
Theorem handleResize_gate
  (cfg : Config) (host : Browser) (events : list Event) (width height : N) :
  let this := run events (constructor cfg host) in
  let resized := viewport_changed width height this in
  let index := JS.Math_floor (currentIndex (frames this)) in
  (notifications this = 0%nat ->
     handleResize this = this
     /\ dispatch this (window_resize width height) = resized
     /\ context resized = context this
     /\ canvas_width resized = canvas_width this
     /\ canvas_height resized = canvas_height this
     /\ frames resized = frames this)
  /\ (notifications this = 1%nat ->
        handleResize this = loadImage index this
        /\ dispatch this (window_resize width height)
           = loadImage index resized
        /\ forall img : Image,
             isValidFrameIndex index this = true ->
             JS.get (images this) index = Some img ->
             let after := dispatch this (window_resize width height) in
             context after = context this ++ render_calls width height img
             /\ canvas_width after = width
             /\ canvas_height after = height
             /\ currentIndex (frames after) = index)
  /\ (notifications this = 0%nat \/ notifications this = 1%nat).
Proof.
  intros this resized index.
  destruct (notified_iff_initialized cfg host events) as [Hoff Hon].
  fold this in Hoff, Hon.
  split; [|split].
  - intros Hnone. apply Hoff in Hnone.
    unfold dispatch, handleResize. fold resized.
    change (isInitialized resized) with (isInitialized this).
    rewrite Hnone. repeat split.
  - intros Hfired. apply Hon in Hfired.
    unfold dispatch, handleResize. fold resized.
    change (isInitialized resized) with (isInitialized this).
    rewrite Hfired.
    change (JS.Math_floor (currentIndex (frames this))) with index.
    change (JS.Math_floor (currentIndex (frames resized))) with index.
    split; [reflexivity|]. split; [reflexivity|].
    intros img Hvalid Hget.
    rewrite (loadImage_render index resized img Hvalid Hget).
    repeat split.
  - destruct (isInitialized this).
    + right. now apply Hon.
    + left. now apply Hoff.
Qed.

Lemma handleResize_gate_witness :
  let this := run [] (constructor CONFIG (mkBrowser 800 600 true true)) in
  notifications this = 0%nat
  /\ handleResize this = this
  /\ dispatch this (window_resize 1000 500) = viewport_changed 1000 500 this.
Proof.
  intros this.
  assert (Hnone : notifications this = 0%nat) by (vm_compute; reflexivity).
  split; [exact Hnone|].
  pose proof (proj1 (handleResize_gate CONFIG (mkBrowser 800 600 true true)
                       [] 1000 500) Hnone) as Hgate.
  split; [exact (proj1 Hgate)|exact (proj1 (proj2 Hgate))].
Defined.

(** [handleResize] outside any run: the gate is the [isInitialized] flag. *)
Lemma handleResize_not_initialized (this : State) :
  isInitialized this = false -> handleResize this = this.
Proof. intros H. unfold handleResize. now rewrite H. Qed.

(** ** The cursor stays in range *)

(** The cursor after [loadImage]: untouched, or the index given, which
    passed the range check. *)
Lemma loadImage_cursor (index : Q) (this : State) :
  currentIndex (frames (loadImage index this)) = currentIndex (frames this)
  \/ (currentIndex (frames (loadImage index this)) = index
      /\ isValidFrameIndex index this = true).
Proof.
  destruct (loadImage_spec index this); [now left|now left|right].
  split; [reflexivity|assumption].
Qed.

Lemma loadImage_cursor_in_range (index : Q) (this : State) :
  cursor_in_range this -> cursor_in_range (loadImage index this).
Proof.
  intros Hin. unfold cursor_in_range.
  destruct (loadImage_preserves index this) as (_ & _ & _ & _ & _ & Hmax & _).
  rewrite Hmax.
  destruct (loadImage_cursor index this) as [Hsame|[Hset Hvalid]].
  - rewrite Hsame. exact Hin.
  - rewrite Hset. now apply isValidFrameIndex_iff.
Qed.

Lemma handleImageLoad_cursor_in_range (this : State) :
  cursor_in_range this -> cursor_in_range (handleImageLoad this).
Proof.
  intros Hin. unfold handleImageLoad.
  match goal with |- context [if ?c then _ else _] => destruct c end;
    [|exact Hin].
  unfold onAllImagesLoaded.
  match goal with
  | |- cursor_in_range (startAnimation ?s) =>
      destruct (startAnimation_effect s) as (_ & Hframes & _);
      unfold cursor_in_range; rewrite Hframes
  end.
  now apply loadImage_cursor_in_range.
Qed.

Lemma dispatch_cursor_in_range (this : State) (e : Event) :
  cursor_in_range this ->
  tween_in_range (maxIndex (frames this)) e ->
  cursor_in_range (dispatch this e).
Proof.
  intros Hin Htween. destruct e as [i w h|i|w h|value|index|]; simpl.
  - apply handleImageLoad_cursor_in_range.
    unfold resolve. now destruct (1 <=? i)%Z.
  - rewrite handleImageLoadError_as_load.
    apply handleImageLoad_cursor_in_range.
    unfold resolve. now destruct (1 <=? i)%Z.
  - unfold handleResize.
    destruct (isInitialized (viewport_changed w h this)); [|exact Hin].
    now apply loadImage_cursor_in_range.
  - destruct (timelines this); [exact Hin|].
    unfold onUpdate. apply loadImage_cursor_in_range. exact Htween.
  - unfold loadFrame. destruct (isInitialized this); [|exact Hin].
    now apply loadImage_cursor_in_range.
  - exact Hin.
Qed.

Lemma dispatch_maxIndex (this : State) (e : Event) :
  maxIndex (frames (dispatch this e)) = maxIndex (frames this).
Proof.
  destruct e; simpl; unfold handleResize, onUpdate, loadFrame, resolve;
    case_gates; autorewrite with untouched; reflexivity.
Qed.

Lemma run_cursor_in_range (N : Z) (events : list Event) :
  forall this : State,
    maxIndex (frames this) = N ->
    cursor_in_range this ->
    Forall (tween_in_range N) events ->
    cursor_in_range (run events this).
Proof.
  induction events as [|e events IH]; intros this HN Hin Hall; [exact Hin|].
  inversion Hall as [|e' events' He Hrest]; subst e' events'.
  simpl. apply IH.
  - now rewrite dispatch_maxIndex.
  - apply dispatch_cursor_in_range; [exact Hin|]. now rewrite HN.
  - exact Hrest.
Qed.

(** GSAP interpolates a tween linearly between the value it found and
    the target: every value it writes while scrubbing one of the timeline's
    tweens is in range when the value it found was. *)
Lemma timeline_targets_in_range (tween : FrameTween) :
  In tween buildAnimationTimeline ->
  (0 <= targetIndex tween <= 570)%Z.
Proof.
  unfold buildAnimationTimeline. simpl.
  intros H; repeat (destruct H as [H|H]; [subst tween; simpl; lia|]).
  contradiction.
Qed.

Lemma scrubbed_value_in_range
  (N : Z) (tween : FrameTween) (found progress : Q) :
  In tween buildAnimationTimeline ->
  (570 <= N)%Z ->
  0 <= found /\ found <= inject_Z N ->
  0 <= progress /\ progress <= 1 ->
  tween_in_range N
    (tween_update
       (found + (inject_Z (targetIndex tween) - found) * progress)).
Proof.
  intros Hin HN [Hlo Hhi] [Hp0 Hp1].
  apply timeline_targets_in_range in Hin.
  assert (Ht0 : 0 <= inject_Z (targetIndex tween)).
  { change 0 with (inject_Z 0). rewrite <- Zle_Qle. lia. }
  assert (Ht1 : inject_Z (targetIndex tween) <= inject_Z N).
  { rewrite <- Zle_Qle. lia. }
  simpl. split; nra.
Qed.

(** C8. [currentIndex] starts at 0, within [0, maxIndex]; [loadImage]
    either leaves it alone or assigns the index it was given, and then that
    index passed the check [index >= 0 && index <= maxIndex]; so
    [0 <= currentIndex <= maxIndex] is preserved by [loadImage] and
    [loadFrame] on every state, and holds after every sequence of events in
    which the values GSAP writes while scrubbing are in that range. *)
Theorem currentIndex_within_bounds
  (cfg : Config) (host : Browser) (events : list Event) :
  (0 <= FRAME_MAX_INDEX cfg)%Z ->
  Forall (tween_in_range (FRAME_MAX_INDEX cfg)) events ->
  currentIndex (frames (constructor cfg host)) = 0
  /\ cursor_in_range (constructor cfg host)
  /\ cursor_in_range (run events (constructor cfg host))
  /\ (forall (this : State) (index : Q),
        (currentIndex (frames (loadImage index this))
         = currentIndex (frames this)
         \/ (currentIndex (frames (loadImage index this)) = index
             /\ isValidFrameIndex index this = true))
        /\ (cursor_in_range this -> cursor_in_range (loadImage index this))
        /\ (cursor_in_range this -> cursor_in_range (loadFrame index this))).
Proof.
  intros HN Htweens.
  destruct (constructor_consistent cfg host) as [Hmax _ _ Hflag _ _ Hidle].
  assert (Hoff : isInitialized (constructor cfg host) = false).
  { rewrite Hflag. destruct (1 <=? FRAME_MAX_INDEX cfg)%Z eqn:H1;
      [|reflexivity]. simpl. apply Z.leb_gt. apply Z.leb_le in H1. lia. }
  destruct (Hidle Hoff) as (Hzero & _ & _).
  assert (Hstart : cursor_in_range (constructor cfg host)).
  { unfold cursor_in_range. rewrite Hzero, Hmax. split.
    - apply Qle_refl.
    - change 0 with (inject_Z 0). now rewrite <- Zle_Qle. }
  split; [exact Hzero|]. split; [exact Hstart|]. split.
  - now apply (run_cursor_in_range (FRAME_MAX_INDEX cfg)).
  - intros this index. split; [apply loadImage_cursor|]. split.
    + apply loadImage_cursor_in_range.
    + intros Hin. unfold loadFrame. destruct (isInitialized this);
        [now apply loadImage_cursor_in_range|exact Hin].
Qed.

Lemma currentIndex_within_bounds_witness :
  let host := mkBrowser 800 600 true true in
  let events :=
    thousand_loads_then_errors
    ++ [tween_update (201 # 2); call_loadFrame 7; call_loadFrame 2000;
        window_resize 1000 500] in
  cursor_in_range (run events (constructor CONFIG host)).
Proof.
  intros host events.
  refine (proj1 (proj2 (proj2
            (currentIndex_within_bounds CONFIG host events _ _)))).
  - simpl. lia.
  - apply Forall_app. split.
    + apply Forall_forall. intros e Hin.
      apply in_map_iff in Hin. destruct Hin as [i [Hi _]]. subst e.
      destruct (i <=? 1000)%Z; exact I.
    + repeat (apply Forall_cons; [simpl; try exact I; try (split; unfold Qle; simpl; lia)|]).
      apply Forall_nil.
Defined.

(** ** Array lookups *)

Lemma get_integer {A : Type} (array : list A) (k : Z) :
  (0 <= k)%Z -> JS.get array (inject_Z k) = nth_error array (Z.to_nat k).
Proof.
  intros Hk. unfold JS.get. rewrite Qfloor_Z, Qeq_bool_refl.
  apply Z.leb_le in Hk. now rewrite Hk.
Qed.

Lemma get_proper {A : Type} (array : list A) (i j : Q) :
  i == j -> JS.get array i = JS.get array j.
Proof.
  intros Heq. unfold JS.get.
  rewrite (Qfloor_comp i j Heq).
  now rewrite (Qeqb_comp i j Heq _ _ (Qeq_refl (inject_Z (Qfloor j)))).
Qed.

(** A lookup that yields an element was at an integer position below the
    length. *)
Lemma get_some {A : Type} (array : list A) (index : Q) (x : A) :
  JS.get array index = Some x ->
  exists k : Z,
    index == inject_Z k
    /\ (0 <= k < Z.of_nat (length array))%Z
    /\ nth_error array (Z.to_nat k) = Some x.
Proof.
  unfold JS.get. intros Hget.
  destruct (Qeq_bool index (inject_Z (Qfloor index))) eqn:Hint;
    [|discriminate].
  destruct (0 <=? Qfloor index)%Z eqn:Hpos; [|discriminate].
  simpl in Hget. exists (Qfloor index).
  apply Qeq_bool_eq in Hint. apply Z.leb_le in Hpos.
  split; [exact Hint|]. split; [|exact Hget].
  assert (Hlt : (Z.to_nat (Qfloor index) < length array)%nat).
  { apply nth_error_Some. rewrite Hget. discriminate. }
  lia.
Qed.

Lemma images_length (cfg : Config) (k : Z) (this : State) :
  consistent cfg k this ->
  length (images this) = Z.to_nat (FRAME_MAX_INDEX cfg).
Proof.
  intros [_ _ _ _ _ Hsrc _].
  apply (f_equal (@length string)) in Hsrc.
  now rewrite !length_map, range_length in Hsrc.
Qed.

(** The image at position [j] was created at loop index [j+1]. *)
Lemma image_source (cfg : Config) (k : Z) (this : State)
  (j : nat) (img : Image) :
  consistent cfg k this ->
  nth_error (images this) j = Some img ->
  src img = generateImageUrl cfg (1 + Z.of_nat j).
Proof.
  intros Hinv Hnth.
  pose proof (images_length cfg k this Hinv) as Hlen.
  destruct Hinv as [_ _ _ _ _ Hsrc _].
  assert (Hj : (j < Z.to_nat (FRAME_MAX_INDEX cfg))%nat).
  { rewrite <- Hlen. apply nth_error_Some. rewrite Hnth. discriminate. }
  apply (f_equal (fun l => nth_error l j)) in Hsrc.
  rewrite (map_nth_error src j (images this) Hnth) in Hsrc.
  unfold range in Hsrc. rewrite !nth_error_map, nth_error_seq in Hsrc.
  apply Nat.ltb_lt in Hj. rewrite Hj in Hsrc. simpl in Hsrc.
  now injection Hsrc.
Qed.

Lemma render_changes_context (index : Q) (img : Image) (this : State) :
  context (set_currentIndex index (renderImage img (resizeCanvas this)))
  <> context this.
Proof.
  simpl. intros Heq. apply (f_equal (@length ContextCall)) in Heq.
  rewrite length_app in Heq. simpl in Heq. lia.
Qed.

(** ** The last index *)

(** C6. After any sequence of events on an object built with
    maxIndex >= 0 (1345 in the source): [maxIndex] passes
    [isValidFrameIndex], yet [images] has exactly maxIndex elements, at
    positions 0 .. maxIndex-1, so the lookup at maxIndex yields nothing
    and [loadImage(maxIndex)] only writes its warning to the console:
    context calls, canvas size and [frames] (the cursor) are as before.
    The indices at which [loadImage] makes any call on the context are
    exactly the integers of [0, maxIndex-1]. *)
Theorem loadImage_maxIndex_is_noop
  (cfg : Config) (host : Browser) (events : list Event) :
  (0 <= FRAME_MAX_INDEX cfg)%Z ->
  let this := run events (constructor cfg host) in
  let last := inject_Z (FRAME_MAX_INDEX cfg) in
  isValidFrameIndex last this = true
  /\ Z.of_nat (length (images this)) = FRAME_MAX_INDEX cfg
  /\ JS.get (images this) last = None
  /\ loadImage last this = console_log (warn_image_not_available last) this
  /\ context (loadImage last this) = context this
  /\ canvas_width (loadImage last this) = canvas_width this
  /\ canvas_height (loadImage last this) = canvas_height this
  /\ frames (loadImage last this) = frames this
  /\ (forall index : Q,
        context (loadImage index this) <> context this
        <-> exists k : Z,
              index == inject_Z k /\ (0 <= k <= FRAME_MAX_INDEX cfg - 1)%Z).
Proof.
  intros HN this last.
  pose proof (run_consistent cfg host events) as Hinv. fold this in Hinv.
  pose proof (images_length cfg _ this Hinv) as Hlen.
  pose proof (inv_maxIndex _ _ _ Hinv) as Hmax.
  assert (Hvalid : isValidFrameIndex last this = true).
  { apply isValidFrameIndex_iff. rewrite Hmax. split.
    - change 0 with (inject_Z 0). subst last. now rewrite <- Zle_Qle.
    - apply Qle_refl. }
  assert (Hnone : JS.get (images this) last = None).
  { subst last. rewrite get_integer by exact HN.
    apply nth_error_None. lia. }
  pose proof (loadImage_no_image last this Hvalid Hnone) as Hskip.
  split; [exact Hvalid|]. split; [lia|]. split; [exact Hnone|].
  split; [exact Hskip|]. rewrite Hskip.
  repeat (split; [reflexivity|]).
  intros index. split.
  - intros Hdraws.
    destruct (loadImage_spec index this) as [Hbad|Hok Hmiss|img Hok Hget];
      try (exfalso; apply Hdraws; reflexivity).
    destruct (get_some _ _ _ Hget) as (k & Hk & Hrange & _).
    exists k. split; [exact Hk|]. lia.
  - intros (k & Hk & Hrange).
    assert (Hok : isValidFrameIndex index this = true).
    { apply isValidFrameIndex_iff. rewrite Hmax, Hk. split.
      - change 0 with (inject_Z 0). rewrite <- Zle_Qle. lia.
      - rewrite <- Zle_Qle. lia. }
    destruct (nth_error (images this) (Z.to_nat k)) as [img|] eqn:Hnth.
    + assert (Hget : JS.get (images this) index = Some img).
      { rewrite (get_proper _ _ _ Hk), get_integer by lia. exact Hnth. }
      rewrite (loadImage_render index this img Hok Hget).
      apply render_changes_context.
    + apply nth_error_None in Hnth. lia.
Qed.

Lemma loadImage_maxIndex_is_noop_witness :
  let host := mkBrowser 800 600 true true in
  let this := run thousand_loads_then_errors (constructor CONFIG host) in
  let last := inject_Z (FRAME_MAX_INDEX CONFIG) in
  isValidFrameIndex last this = true
  /\ Z.of_nat (length (images this)) = FRAME_MAX_INDEX CONFIG
  /\ JS.get (images this) last = None
  /\ loadImage last this = console_log (warn_image_not_available last) this.
Proof.
  intros host this last.
  assert (HN : (0 <= FRAME_MAX_INDEX CONFIG)%Z) by (simpl; lia).
  pose proof (loadImage_maxIndex_is_noop CONFIG host
                thousand_loads_then_errors HN) as Hlast.
  split; [exact (proj1 Hlast)|].
  split; [exact (proj1 (proj2 Hlast))|].
  split; [exact (proj1 (proj2 (proj2 Hlast)))|].
  exact (proj1 (proj2 (proj2 (proj2 Hlast)))).
Defined.

(** ** Locators are distinct *)

Lemma length_append (a b : string) :
  String.length (a ++ b) = (String.length a + String.length b)%nat.
Proof. induction a as [|c a IH]; simpl; [reflexivity|now rewrite IH]. Qed.

Lemma append_cancel_r (a b t : string) :
  (a ++ t)%string = (b ++ t)%string -> a = b.
Proof.
  revert b. induction a as [|c a IH]; intros [|d b] Heq; simpl in Heq.
  - reflexivity.
  - apply (f_equal String.length) in Heq. simpl in Heq.
    rewrite length_append in Heq. lia.
  - apply (f_equal String.length) in Heq. simpl in Heq.
    rewrite length_append in Heq. lia.
  - injection Heq as Hc Hrest. subst d. f_equal. now apply IH.
Qed.

Lemma decimal_value_leading_zero (s : string) :
  decimal_value (String "0" s) = decimal_value s.
Proof.
  unfold decimal_value. simpl.
  now destruct (NilEmpty.uint_of_string s).
Qed.

Lemma decimal_value_filler (n : nat) (s : string) :
  forall rest : string,
    rest = "0"%string \/ rest = EmptyString ->
    decimal_value (JS.filler n "0" rest ++ s) = decimal_value s.
Proof.
  induction n as [|n IH]; intros rest Hrest; [reflexivity|].
  destruct Hrest as [Hrest|Hrest]; subst rest; simpl;
    rewrite decimal_value_leading_zero; apply IH; now right.
Qed.

Lemma decimal_value_toString (i : Z) :
  (0 <= i)%Z -> decimal_value (JS.toString i) = Some i.
Proof.
  intros Hi. unfold decimal_value, JS.toString.
  destruct i as [|p|p]; [reflexivity| |lia].
  simpl. rewrite NilEmpty.usu. simpl.
  change (Pos.of_uint (Pos.to_uint p)) with (N.of_uint (Pos.to_uint p)).
  unfold N.of_uint. now rewrite DecimalPos.Unsigned.of_to.
Qed.

Lemma decimal_value_padStart (i : Z) (maxLength : nat) :
  (0 <= i)%Z ->
  decimal_value (JS.padStart (JS.toString i) maxLength "0") = Some i.
Proof.
  intros Hi. unfold JS.padStart.
  destruct (maxLength <=? String.length (JS.toString i))%nat.
  - now apply decimal_value_toString.
  - rewrite decimal_value_filler by now left.
    now apply decimal_value_toString.
Qed.

Lemma generateImageUrl_injective (cfg : Config) (i j : Z) :
  (0 <= i)%Z -> (0 <= j)%Z ->
  generateImageUrl cfg i = generateImageUrl cfg j -> i = j.
Proof.
  intros Hi Hj Heq. unfold generateImageUrl in Heq.
  simpl in Heq. injection Heq as Heq.
  apply append_cancel_r in Heq.
  apply (f_equal decimal_value) in Heq.
  rewrite !decimal_value_padStart in Heq by assumption.
  now injection Heq.
Qed.

(** ** Which frame an index shows *)

(** The render inside the callback that completes the count. *)
Lemma handleImageLoad_first_render (cfg : Config) (k : Z) (this : State) :
  consistent cfg k this ->
  (k + 1 = FRAME_MAX_INDEX cfg)%Z ->
  exists first : Image,
    nth_error (images this) 0 = Some first
    /\ context (handleImageLoad this)
       = render_calls (innerWidth (browser this)) (innerHeight (browser this))
           first
    /\ currentIndex (frames (handleImageLoad this)) = 0.
Proof.
  intros Hinv Hnth.
  pose proof (images_length cfg k this Hinv) as Hlen.
  destruct Hinv as [Hmax Hk Hpos Hinit Hnote Hsrc Hidle].
  assert (Hoff : isInitialized this = false).
  { rewrite Hinit. apply andb_false_iff. right. apply Z.leb_gt. lia. }
  destruct (Hidle Hoff) as (Hzero & Hblank & _).
  destruct (images this) as [|first rest] eqn:Himages;
    [simpl in Hlen; lia|].
  exists first. split; [reflexivity|].
  unfold handleImageLoad. simpl. rewrite Hk, Hmax.
  apply Z.eqb_eq in Hnth. rewrite Hnth.
  unfold onAllImagesLoaded.
  set (ready := set_isInitialized true (set_imagesLoaded (k + 1) this)).
  change (currentIndex (frames ready)) with (currentIndex (frames this)).
  rewrite Hzero.
  assert (Hrender : loadImage 0 ready
                    = set_currentIndex 0
                        (renderImage first (resizeCanvas ready))).
  { apply loadImage_render.
    - apply isValidFrameIndex_iff. split; [apply Qle_refl|].
      change (maxIndex (frames ready)) with (maxIndex (frames this)).
      rewrite Hmax. change 0 with (inject_Z 0). rewrite <- Zle_Qle.
      apply Z.eqb_eq in Hnth. lia.
    - change (images ready) with (images this). rewrite Himages.
      reflexivity. }
  destruct (startAnimation_effect (loadImage 0 ready))
    as (_ & Hframes & _ & _ & _ & Hcontext & _).
  rewrite Hcontext, Hframes, Hrender. simpl. rewrite Hblank.
  split; reflexivity.
Qed.

Lemma four_digit_locator (i : Z) :
  (0 <= i < 10000)%Z ->
  generateImageUrl CONFIG i = ("./images/" ++ frame_file_name i)%string.
Proof.
  intros Hi.
  pose proof four_digit_indices_follow_convention as Hall.
  rewrite forallb_forall in Hall.
  assert (Hin : In i (range 0 (Z.to_nat 10000))) by (apply in_range; lia).
  specialize (Hall i Hin). unfold follows_convention in Hall.
  apply andb_true_iff in Hall. destruct Hall as [Hall _].
  apply andb_true_iff in Hall. destruct Hall as [Hurl _].
  now apply String.eqb_eq.
Qed.

(** C5. With the source's constants, after any sequence of events: for
    every k in [0, 1344], [loadImage(k)] clears the surface and draws the
    image found at position k of [images], whose locator is
    [./images/frame_<k+1 zero-padded to 4 digits>.jpeg], and leaves the
    cursor at k.  The image with locator frame_1345.jpeg is only found at
    index 1344.  The render made inside the callback that completes the
    count (the 1345th) is of cursor index 0 and draws frame_0001.jpeg, as
    the first call ever made on the context. *)
Theorem cursor_index_is_file_index_minus_one
  (host : Browser) (events : list Event) (k : Z) :
  (0 <= k <= FRAME_MAX_INDEX CONFIG - 1)%Z ->
  let this := run events (constructor CONFIG host) in
  let W := innerWidth (browser this) in
  let H := innerHeight (browser this) in
  (exists img : Image,
     JS.get (images this) (inject_Z k) = Some img
     /\ src img = ("./images/" ++ "frame_" ++ zero_padded4 (k + 1) ++ ".jpeg")%string
     /\ context (loadImage (inject_Z k) this)
        = context this ++ render_calls W H img
     /\ currentIndex (frames (loadImage (inject_Z k) this)) = inject_Z k)
  /\ (forall (index : Q) (img : Image),
        JS.get (images this) index = Some img ->
        src img = "./images/frame_1345.jpeg"%string ->
        index == inject_Z 1344)
  /\ (forall img : Image,
        JS.get (images this) 0 = Some img ->
        src img = "./images/frame_0001.jpeg"%string)
  /\ (forall e : Event,
        is_resolution e = true ->
        (resolutions events + 1 = FRAME_MAX_INDEX CONFIG)%Z ->
        exists first : Image,
          src first = "./images/frame_0001.jpeg"%string
          /\ context (dispatch this e) = render_calls W H first
          /\ currentIndex (frames (dispatch this e)) = 0).
Proof.
  intros Hk this W H.
  pose proof (run_consistent CONFIG host events) as Hinv. fold this in Hinv.
  pose proof (images_length CONFIG _ this Hinv) as Hlen.
  pose proof (inv_maxIndex _ _ _ Hinv) as Hmax.
  simpl in Hk, Hlen, Hmax.
  split; [|split; [|split]].
  - destruct (nth_error (images this) (Z.to_nat k)) as [img|] eqn:Hnth;
      [|apply nth_error_None in Hnth; lia].
    exists img.
    assert (Hget : JS.get (images this) (inject_Z k) = Some img).
    { rewrite get_integer by lia. exact Hnth. }
    assert (Hvalid : isValidFrameIndex (inject_Z k) this = true).
    { apply isValidFrameIndex_iff. rewrite Hmax. split.
      - change 0 with (inject_Z 0). rewrite <- Zle_Qle. lia.
      - rewrite <- Zle_Qle. lia. }
    split; [exact Hget|]. split.
    + rewrite (image_source CONFIG _ this _ img Hinv Hnth).
      replace (1 + Z.of_nat (Z.to_nat k))%Z with (k + 1)%Z by lia.
      apply four_digit_locator. lia.
    + rewrite (loadImage_render _ this img Hvalid Hget). split; reflexivity.
  - intros index img Hget Hsrc.
    destruct (get_some _ _ _ Hget) as (j & Hj & Hrange & Hnth).
    rewrite Hj. apply inject_Z_injective.
    rewrite (image_source CONFIG _ this _ img Hinv Hnth) in Hsrc.
    change "./images/frame_1345.jpeg"%string
      with (generateImageUrl CONFIG 1345) in Hsrc.
    apply generateImageUrl_injective in Hsrc; lia.
  - intros img Hget.
    change 0 with (inject_Z 0) in Hget. rewrite get_integer in Hget by lia.
    now rewrite (image_source CONFIG _ this _ img Hinv Hget).
  - intros e He Hnth.
    assert (Hfirst : forall before : State,
               consistent CONFIG (resolutions events) before ->
               browser before = browser this ->
               exists first : Image,
                 src first = "./images/frame_0001.jpeg"%string
                 /\ context (handleImageLoad before) = render_calls W H first
                 /\ currentIndex (frames (handleImageLoad before)) = 0).
    { intros before Hbefore Hbrowser.
      destruct (handleImageLoad_first_render CONFIG _ before Hbefore Hnth)
        as (first & Hzero & Hcontext & Hcursor).
      exists first. split; [|split; [|exact Hcursor]].
      - now rewrite (image_source CONFIG _ before _ first Hbefore Hzero).
      - rewrite Hcontext, Hbrowser. reflexivity. }
    destruct e as [i w h|i|w h|value|index|]; try discriminate; simpl.
    + apply Hfirst; [now apply resolve_consistent|].
      unfold resolve. now destruct (1 <=? i)%Z.
    + rewrite handleImageLoadError_as_load.
      apply Hfirst.
      * apply console_warning_consistent; [reflexivity|].
        now apply resolve_consistent.
      * unfold resolve. now destruct (1 <=? i)%Z.
Qed.

Lemma cursor_index_is_file_index_minus_one_witness :
  let host := mkBrowser 800 600 true true in
  let this := run thousand_loads_then_errors (constructor CONFIG host) in
  let W := innerWidth (browser this) in
  let H := innerHeight (browser this) in
  exists img : Image,
    JS.get (images this) (inject_Z 1344) = Some img
    /\ src img
       = ("./images/" ++ "frame_" ++ zero_padded4 (1344 + 1) ++ ".jpeg")%string
    /\ context (loadImage (inject_Z 1344) this)
       = context this ++ render_calls W H img
    /\ currentIndex (frames (loadImage (inject_Z 1344) this)) = inject_Z 1344.
Proof.
  intros host this W H.
  refine (proj1 (cursor_index_is_file_index_minus_one host
                   thousand_loads_then_errors 1344 _)).
  simpl. lia.
Defined.

(** ** Slots without a usable image *)












(** What the code does at a slot that holds an element without an image,
    in every state: the element is looked up like any other, the surface is
    resized and cleared, a draw with NaN geometry is issued and the cursor
    moves to the index. *)
Lemma unavailable_slot_is_rendered (this : State) (index : Q) (img : Image) :
  isValidFrameIndex index this = true ->
  JS.get (images this) index = Some img ->
  load img = pending \/ load img = failed ->
  context (loadImage index this)
  = context this
    ++ [ clearRect 0 0 (JS.number (innerWidth (browser this)))
           (JS.number (innerHeight (browser this)));
         imageSmoothingEnabled true;
         imageSmoothingQuality "high";
         drawImage img nan nan nan nan ]
  /\ currentIndex (frames (loadImage index this)) = index.
Proof.
  intros Hvalid Hget Hload.
  rewrite (loadImage_render index this img Hvalid Hget).
  split; [|reflexivity].
  rewrite <- (unsized_image_geometry _ _ img Hload). reflexivity.
Qed.



